(** * retry: a shallow embedding of [retry.go] and its specification

    The Go package has two exported functions, [Try] and [Retry], and one
    unexported error type, [recovered].  The caller's operation [f] and the
    callback [onError] are arbitrary Go closures: they are modelled as
    functions over an abstract caller-owned world [W] that either return or
    panic.  [Retry] is a loop that need not terminate, so it is run with a
    bound on the number of iterations; what it does to the outside (calling
    [f], calling [onError], sleeping) is recorded in a trace. *)

From Stdlib Require Import String ZArith List Bool Lia.
Import ListNotations.
Local Open Scope Z_scope.

(** ** Go's [int] (64 bits on the usual platforms), with its wrap-around *)
Module int.
Definition bits : Z := 64.
Definition min : Z := - 2 ^ (bits - 1).
Definition max : Z := 2 ^ (bits - 1) - 1.
Definition wrap (z : Z) : Z := (z - min) mod 2 ^ bits + min.
(** [n--] *)
Definition dec (n : Z) : Z := wrap (n - 1).
End int.

(** ** [time.Duration]: an int64 count of nanoseconds *)
Module time.
Definition Duration : Type := Z.
Definition Nanosecond : Duration := 1.
Definition Microsecond : Duration := 1000 * Nanosecond.
Definition Millisecond : Duration := 1000 * Microsecond.
Definition Second : Duration := 1000 * Millisecond.
End time.

Section Embedding.

(** [W]: the state the caller's closures read and write.
    [V]: the non-nil dynamic values a closure can pass to [panic].
    [E]: the error values the caller's code makes. *)
Variables (W V E : Type).

(** A non-nil [interface{}] that [recover] can hand back: a value of the
    caller's, or the [*runtime.PanicNilError] the runtime substitutes for
    [panic(nil)] since Go 1.21. *)
Inductive dyn : Type :=
| PanicNilError
| Val (v : V).

(** [interface{}]; [None] is the nil interface. *)
Definition any : Type := option dyn.

(** [type recovered struct { e interface{} }] *)
Record recovered : Type := { e : any }.

(** [func (r *recovered) Error() string] *)
Definition Error (r : recovered) : string :=
  "RECOVERED, UNKNOWN ERROR; CALL CausedBy() interface{}".

(** [func (r *recovered) CausedBy() interface{}] *)
Definition CausedBy (r : recovered) : any := e r.

(** The non-nil values of the interface [error] that occur here: an error
    of the caller's, or a [*recovered]. *)
Inductive err_val : Type :=
| UserError (x : E)
| Recovered (r : recovered).

(** [error]; [None] is nil. *)
Definition error : Type := option err_val.

(** How a call of a closure ends: it returns, or it panics with the
    argument given to [panic].  Closures that never come back are outside
    the model. *)
Inductive outcome (A : Type) : Type :=
| Returned (a : A)
| Panicked (v : any).
Arguments Returned {A} a.
Arguments Panicked {A} v.

(** [func() error] and [func(error)].  A nil [f] is the operation that
    panics at once with the runtime's nil-dereference error; a nil [onError]
    is [None] where [Retry] takes it. *)
Definition Op : Type := W -> outcome error * W.
Definition Handler : Type := error -> W -> outcome unit * W.

(** What [Retry] does to the outside, in order. *)
Inductive event : Type :=
| EvCall (o : outcome error)
| EvOnError (err : error)
| EvSleep (d : time.Duration).

Record State : Type := { world : W; trace : list event }.

Definition emit (ev : event) (s : State) : State :=
  {| world := world s; trace := trace s ++ [ev] |}.

(** Computations that thread the state and may panic. *)
Definition M (A : Type) : Type := State -> outcome A * State.

Definition ret {A : Type} (a : A) : M A := fun s => (Returned a, s).

Definition bind {A B : Type} (m : M A) (k : A -> M B) : M B :=
  fun s =>
    match m s with
    | (Returned a, s') => k a s'
    | (Panicked v, s') => (Panicked v, s')
    end.

Notation "x <- m ;; k" := (bind m (fun x => k))
  (at level 61, m at next level, right associativity).
Notation "m ;;; k" := (bind m (fun _ => k))
  (at level 61, right associativity).

(** [f()] *)
Definition call (f : Op) : M error :=
  fun s =>
    let (o, w') := f (world s) in
    (o, {| world := w'; trace := trace s ++ [EvCall o] |}).

(** [onError(err)] *)
Definition call_onError (h : Handler) (err : error) : M unit :=
  fun s =>
    let (o, w') := h err (world s) in
    (o, {| world := w'; trace := trace s ++ [EvOnError err] |}).

(** [time.Sleep(p)] *)
Definition Sleep (p : time.Duration) : M unit :=
  fun s => (Returned tt, emit (EvSleep p) s).

(** The runtime setting [GODEBUG=panicnil]: [true] is the behaviour of
    every Go before 1.21, kept for main modules that declare go 1.20 or
    older; [false] is the behaviour since Go 1.21. *)
Variable panicnil : bool.

(** The value a panicking goroutine carries after [panic(v)]. *)
Definition panic_value (v : any) : any :=
  match v with
  | Some _ => v
  | None => if panicnil then None else Some PanicNilError
  end.

(** [recover()] called directly by the deferred function once the body
    ended as [o]: nil when the goroutine is not panicking, the panic value
    otherwise; in both cases the goroutine is not panicking afterwards. *)
Definition recover (o : outcome error) : any :=
  match o with
  | Returned _ => None
  | Panicked v => panic_value v
  end.

(** The named result [errRun] of [Try] once the body [return f()] ended as
    [o] and the deferred function has run. *)
Definition Try_result (o : outcome error) : error :=
  let errRun := match o with Returned r => r | Panicked _ => None end in
  match recover o with
  | Some x => Some (Recovered {| e := Some x |})
  | None => errRun
  end.

(** [func Try(f func() error) (errRun error)] *)
Definition Try (f : Op) : M error :=
  fun s =>
    let (o, s') := call f s in
    (Returned (Try_result o), s').

(** The first lines of [Retry]: the period in force. *)
Definition Retry_period (period : list time.Duration) : time.Duration :=
  let p := time.Second * 5 in
  match period with
  | p0 :: _ => if 0 <? p0 then p0 else p
  | [] => p
  end.

(** How one turn of the [for] loop ends: at its closing brace, with the
    counter as it then is, or at [break]. *)
Inductive flow : Type :=
| Continue (numberOfRetries : Z)
| Break.

Section Loop.
Variables (f : Op) (onError : option Handler) (p : time.Duration).

(** The body of the [for] loop. *)
Definition iteration (numberOfRetries : Z) : M flow :=
  let numberOfRetries :=
    if 0 <? numberOfRetries then int.dec numberOfRetries
    else numberOfRetries in
  err <- Try f ;;
  match err with
  | Some _ =>
      match onError with
      | Some h => call_onError h err
      | None => ret tt
      end ;;;
      (if negb (numberOfRetries =? 0) then Sleep p else ret tt) ;;;
      ret (Continue numberOfRetries)
  | None => ret Break
  end.

(** A run of the loop bounded by [fuel] turns: it has ended (by the
    guard, by [break] or by a panic), or the bound was reached with the
    guard still true. *)
Inductive run : Type :=
| Finished (o : outcome unit) (s : State)
| OutOfFuel (numberOfRetries : Z) (s : State).

(** [for numberOfRetries != 0 { ... }] *)
Fixpoint loop (fuel : nat) (numberOfRetries : Z) (s : State) : run :=
  if numberOfRetries =? 0 then Finished (Returned tt) s
  else
    match fuel with
    | O => OutOfFuel numberOfRetries s
    | S fuel' =>
        match iteration numberOfRetries s with
        | (Returned (Continue n'), s') => loop fuel' n' s'
        | (Returned Break, s') => Finished (Returned tt) s'
        | (Panicked v, s') => Finished (Panicked v) s'
        end
    end.
End Loop.

(** [func Retry(f func() error, numberOfRetries int, onError func(error),
    period ...time.Duration)], started in world [w]. *)
Definition Retry (f : Op) (numberOfRetries : Z) (onError : option Handler)
    (period : list time.Duration) (fuel : nat) (w : W) : run :=
  loop f onError (Retry_period period) fuel numberOfRetries
       {| world := w; trace := [] |}.

(** *** Reading a trace *)

(** The outcomes of the calls of [f], in order. *)
Fixpoint calls (t : list event) : list (outcome error) :=
  match t with
  | [] => []
  | EvCall o :: t' => o :: calls t'
  | _ :: t' => calls t'
  end.

(** The arguments [onError] was called with, in order. *)
Fixpoint reports (t : list event) : list error :=
  match t with
  | [] => []
  | EvOnError err :: t' => err :: reports t'
  | _ :: t' => reports t'
  end.

(** The durations slept, in order. *)
Fixpoint sleeps (t : list event) : list time.Duration :=
  match t with
  | [] => []
  | EvSleep d :: t' => d :: sleeps t'
  | _ :: t' => sleeps t'
  end.

(** What [Try] made of each call of [f]. *)
Definition attempts (t : list event) : list error :=
  map Try_result (calls t).

Definition is_failure (err : error) : bool :=
  match err with Some _ => true | None => false end.

(** *** Assumptions a claim may make about the caller's closures *)

(** Every attempt on [f] yields a failure, by return or by panic. *)
Definition always_fails (f : Op) : Prop :=
  forall w, is_failure (Try_result (fst (f w))) = true.

(** [onError], when given, returns from every call. *)
Definition never_panics (onError : option Handler) : Prop :=
  forall h, onError = Some h ->
    forall err w, exists w', h err w = (Returned tt, w').

End Embedding.

Arguments PanicNilError {V}.
Arguments Val {V} v.
Arguments e {V} r.
Arguments Error {V} r.
Arguments CausedBy {V} r.
Arguments UserError {V E} x.
Arguments Recovered {V E} r.
Arguments Returned {V A} a.
Arguments Panicked {V A} v.
Arguments EvCall {V E} o.
Arguments EvOnError {V E} err.
Arguments EvSleep {V E} d.
Arguments world {W V E} s.
Arguments trace {W V E} s.
Arguments emit {W V E} ev s.
Arguments ret {W V E A} a s.
Arguments bind {W V E A B} m k s.
Arguments call {W V E} f s.
Arguments call_onError {W V E} h err s.
Arguments Sleep {W V E} p s.
Arguments panic_value {V} panicnil v.
Arguments recover {V E} panicnil o.
Arguments Try_result {V E} panicnil o.
Arguments Try {W V E} panicnil f s.
Arguments iteration {W V E} panicnil f onError p numberOfRetries s.
Arguments Finished {W V E} o s.
Arguments OutOfFuel {W V E} numberOfRetries s.
Arguments loop {W V E} panicnil f onError p fuel numberOfRetries s.
Arguments Retry {W V E} panicnil f numberOfRetries onError period fuel w.
Arguments calls {V E} t.
Arguments reports {V E} t.
Arguments sleeps {V E} t.
Arguments attempts {V E} panicnil t.
Arguments is_failure {V E} err.
Arguments always_fails {W V E} panicnil f.
Arguments never_panics {W V E} onError.


(** ** The closures of the package's tests

    The world is the tests' counter [sum]; panic payloads and errors are
    strings. *)

Definition test_op : Type := Op Z string string.
Definition test_handler : Type := Handler Z string string.
Definition test_state : Type := State Z string string.

(** [func() error { atomic.AddInt64(&sum, 1); return errors.Errorf("DUMMY") }] *)
Definition fails_DUMMY : test_op :=
  fun sum => (Returned (Some (UserError "DUMMY"%string)), sum + 1).

(** [func() error { atomic.AddInt64(&sum, 1); return nil }] *)
Definition succeeds : test_op :=
  fun sum => (Returned None, sum + 1).

(** [func() error { atomic.AddInt64(&sum, 1); panic("X") }] *)
Definition panics_X : test_op :=
  fun sum => (Panicked (Some (Val "X"%string)), sum + 1).

(** [func() error { atomic.AddInt64(&sum, 1); panic(nil) }] *)
Definition panics_nil : test_op :=
  fun sum => (Panicked None, sum + 1).

(** An operation that fails while the counter is below 2 and succeeds from
    then on. *)
Definition fails_twice : test_op :=
  fun sum =>
    if sum <? 2 then (Returned (Some (UserError "FAILED"%string)), sum + 1)
    else (Returned None, sum + 1).

(** [func(error) { atomic.AddInt64(&sum, 1) }] *)
Definition count_error : test_handler :=
  fun _ sum => (Returned tt, sum + 1).

(** [func(err error) { panic(err) }], had the caller written it. *)
Definition panicking_handler : test_handler :=
  fun _ sum => (Panicked (Some (Val "onError"%string)), sum).

Definition ms50 : list time.Duration := [time.Millisecond * 50].

Definition initial (sum : Z) : test_state := {| world := sum; trace := [] |}.

(** The final world of a run that has ended by a return. *)
Definition returned_world {W V E : Type} (r : run W V E) : option W :=
  match r with
  | Finished (Returned _) s => Some (world s)
  | _ => None
  end.

(** The trace of a run, ended or not. *)
Definition run_trace {W V E : Type} (r : run W V E) : list (event V E) :=
  match r with
  | Finished _ s => trace s
  | OutOfFuel _ s => trace s
  end.

(** The sleep at the end of a failed turn, as a piece of trace. *)
Definition sleep_events {V E : Type} (p : time.Duration) (n : Z)
  : list (event V E) :=
  if n =? 0 then [] else [EvSleep p].

(** The counter as a turn of the loop leaves it. *)
Definition next_counter (n : Z) : Z :=
  if 0 <? n then int.dec n else n.

(** The durations slept since the last call of [f]. *)
Definition since_last_call {V E : Type}
    (acc : list time.Duration) (ev : event V E) : list time.Duration :=
  match ev with
  | EvCall _ => []
  | EvOnError _ => acc
  | EvSleep d => acc ++ [d]
  end.

Definition sleeps_after_last_call {V E : Type} (t : list (event V E))
  : list time.Duration :=
  fold_left since_last_call t [].

(** What the rest of [Retry] can tell of one turn of the loop: how it ended,
    the world it left, what [onError] was told and the sleeps. *)
Definition observe {W V E : Type} (r : outcome V flow * State W V E)
  : outcome V flow * W * list (error V E) * list time.Duration :=
  (fst r, world (snd r), reports (trace (snd r)), sleeps (trace (snd r))).

(** [onError], when given, has been told every failure [Try] reported, in
    order, and nothing else. *)
Definition reported_all {W V E : Type} (panicnil : bool)
    (onError : option (Handler W V E)) (t : list (event V E)) : Prop :=
  reports t = match onError with
              | Some _ => filter is_failure (attempts panicnil t)
              | None => []
              end.

(** ** Closures and readings used beyond the claims *)

(** [func() error { return Try(f) }]: an operation the caller has already
    put behind [Try]. *)
Definition guarded {W V E : Type} (panicnil : bool) (f : Op W V E)
  : Op W V E :=
  fun w => let (o, w') := f w in (Returned (Try_result panicnil o), w').

(** [func(error) {}]: a callback that does nothing. *)
Definition ignore_error {W V E : Type} : Handler W V E :=
  fun _ w => (Returned tt, w).

(** The world in which attempt [k + 1] starts when the [k] attempts before
    it have failed and [onError] has returned from each; [None] when one of
    them did not fail or [onError] panicked. *)
Fixpoint world_after_failures {W V E : Type} (panicnil : bool)
    (f : Op W V E) (onError : option (Handler W V E)) (k : nat) (w : W)
  : option W :=
  match k with
  | O => Some w
  | S k' =>
      let (o, w1) := f w in
      match Try_result panicnil o with
      | None => None
      | Some x =>
          match onError with
          | None => world_after_failures panicnil f onError k' w1
          | Some h =>
              match h (Some x) w1 with
              | (Returned _, w2) =>
                  world_after_failures panicnil f onError k' w2
              | (Panicked _, _) => None
              end
          end
      end
  end.

(** The state a run has reached and, when it has ended, how. *)
Definition run_state {W V E : Type} (r : run W V E) : State W V E :=
  match r with
  | Finished _ s => s
  | OutOfFuel _ s => s
  end.

Definition run_end {W V E : Type} (r : run W V E)
  : option (outcome V unit) :=
  match r with
  | Finished o _ => Some o
  | OutOfFuel _ _ => None
  end.

(** Two states that the caller cannot tell apart: the same world, the same
    results of the attempts, the same reports and the same sleeps. *)
Definition same_effects {W V E : Type} (panicnil : bool)
    (s1 s2 : State W V E) : Prop :=
  world s1 = world s2 /\
  attempts panicnil (trace s1) = attempts panicnil (trace s2) /\
  reports (trace s1) = reports (trace s2) /\
  sleeps (trace s1) = sleeps (trace s2).

(** Two states that differ at most in the calls of [onError]. *)
Definition same_but_reports {W V E : Type} (s1 s2 : State W V E) : Prop :=
  world s1 = world s2 /\
  calls (trace s1) = calls (trace s2) /\
  sleeps (trace s1) = sleeps (trace s2).

(** [func(error) { cancel() }] and the operation of [TestOnError3], on a
    world made of the counter [sum] and of whether [ctx] is done. *)
Definition cancel_on_error : Handler (Z * bool) string string :=
  fun _ w => (Returned tt, (fst w, true)).

Definition panics_until_cancelled : Op (Z * bool) string string :=
  fun w =>
    if snd w then (Returned None, w)
    else (Panicked (Some (Val "X"%string)), (fst w + 1, snd w)).

(** * Properties *)

Section Properties.

Context {W V E : Type}.
Variable panicnil : bool.

Implicit Types (f : Op W V E) (onError : option (Handler W V E)).
Implicit Types (s : State W V E) (t : list (event V E)).
Implicit Types (n : Z) (p : time.Duration) (fuel : nat).

(** ** The counter *)

Lemma dec_positive n :
  0 < n -> n <= int.max -> int.dec n = n - 1.
Proof.
  intros Hpos Hmax. unfold int.dec, int.wrap.
  unfold int.max, int.min, int.bits in *.
  change (2 ^ (64 - 1)) with 9223372036854775808 in *.
  change (2 ^ 64) with 18446744073709551616.
  rewrite Z.mod_small by lia. lia.
Qed.

Lemma next_counter_positive n :
  0 < n -> n <= int.max -> next_counter n = n - 1.
Proof.
  intros Hpos Hmax. unfold next_counter.
  destruct (0 <? n) eqn:Hn; [now apply dec_positive | apply Z.ltb_ge in Hn; lia].
Qed.

Lemma next_counter_other n :
  n <= 0 -> next_counter n = n.
Proof.
  intros Hn. unfold next_counter.
  destruct (0 <? n) eqn:H0; [apply Z.ltb_lt in H0; lia | reflexivity].
Qed.

(** ** Traces *)

Lemma calls_app t1 t2 : calls (t1 ++ t2) = calls t1 ++ calls t2.
Proof.
  induction t1 as [|[o|err|d] t1 IH]; simpl; [reflexivity|f_equal|..]; exact IH.
Qed.

Lemma reports_app t1 t2 : reports (t1 ++ t2) = reports t1 ++ reports t2.
Proof.
  induction t1 as [|[o|err|d] t1 IH]; simpl; [reflexivity| |f_equal|]; exact IH.
Qed.

Lemma sleeps_app t1 t2 : sleeps (t1 ++ t2) = sleeps t1 ++ sleeps t2.
Proof.
  induction t1 as [|[o|err|d] t1 IH]; simpl; [reflexivity| | |f_equal]; exact IH.
Qed.

Lemma attempts_app t1 t2 :
  attempts panicnil (t1 ++ t2) = attempts panicnil t1 ++ attempts panicnil t2.
Proof. unfold attempts. now rewrite calls_app, map_app. Qed.

Lemma calls_sleep_events p n : calls (@sleep_events V E p n) = [].
Proof. unfold sleep_events. now destruct (n =? 0). Qed.

Lemma reports_sleep_events p n : reports (@sleep_events V E p n) = [].
Proof. unfold sleep_events. now destruct (n =? 0). Qed.

Lemma after_last_call_snoc_call t o :
  sleeps_after_last_call (t ++ [EvCall o]) = [].
Proof. unfold sleeps_after_last_call. now rewrite fold_left_app. Qed.

Lemma after_last_call_snoc_onError t err :
  sleeps_after_last_call (t ++ [EvOnError err]) = sleeps_after_last_call t.
Proof. unfold sleeps_after_last_call. now rewrite fold_left_app. Qed.

Lemma after_last_call_snoc_sleep t d :
  sleeps_after_last_call (t ++ [EvSleep d]) = sleeps_after_last_call t ++ [d].
Proof. unfold sleeps_after_last_call. now rewrite fold_left_app. Qed.

(** ** One turn of the loop, case by case *)

Lemma Try_call f s :
  Try panicnil f s =
  (Returned (Try_result panicnil (fst (f (world s)))),
   {| world := snd (f (world s));
      trace := trace s ++ [EvCall (fst (f (world s)))] |}).
Proof. unfold Try, call. now destruct (f (world s)). Qed.

Lemma iteration_cases f onError p n s :
  let o := fst (f (world s)) in
  let w1 := snd (f (world s)) in
  let t1 := trace s ++ [EvCall o] in
  let n1 := next_counter n in
  iteration panicnil f onError p n s =
  match Try_result panicnil o with
  | None => (Returned Break, {| world := w1; trace := t1 |})
  | Some x =>
      match onError with
      | None =>
          (Returned (Continue n1),
           {| world := w1; trace := t1 ++ sleep_events p n1 |})
      | Some h =>
          match h (Some x) w1 with
          | (Returned _, w2) =>
              (Returned (Continue n1),
               {| world := w2;
                  trace := (t1 ++ [EvOnError (Some x)]) ++ sleep_events p n1 |})
          | (Panicked v, w2) =>
              (Panicked v,
               {| world := w2; trace := t1 ++ [EvOnError (Some x)] |})
          end
      end
  end.
Proof.
  cbv zeta. unfold iteration, bind. rewrite Try_call.
  fold (next_counter n). unfold sleep_events.
  destruct (Try_result panicnil (fst (f (world s)))) as [x|]; [|reflexivity].
  destruct onError as [h|].
  - unfold call_onError; cbn [world trace].
    destruct (h (Some x) (snd (f (world s)))) as [[[]|v] w2]; [|reflexivity].
    destruct (next_counter n =? 0); cbn; [now rewrite app_nil_r | reflexivity].
  - unfold ret.
    destruct (next_counter n =? 0); cbn; [now rewrite app_nil_r | reflexivity].
Qed.

(** ** Reasoning on the loop *)

(** An invariant [P] of the counter and the state, kept by every turn that
    goes on, gives [Q] of every run that ends and still holds of every run
    cut short. *)
Lemma loop_invariant f onError p
    (P : Z -> State W V E -> Prop) (Q : outcome V unit -> State W V E -> Prop) :
  (forall s, P 0 s -> Q (Returned tt) s) ->
  (forall n s, n <> 0 -> P n s ->
     match iteration panicnil f onError p n s with
     | (Returned (Continue n'), s') => P n' s'
     | (Returned Break, s') => Q (Returned tt) s'
     | (Panicked v, s') => Q (Panicked v) s'
     end) ->
  forall fuel n s, P n s ->
    match loop panicnil f onError p fuel n s with
    | Finished o s' => Q o s'
    | OutOfFuel n' s' => n' <> 0 /\ P n' s'
    end.
Proof.
  intros Hexit Hturn fuel.
  induction fuel as [|fuel IH]; intros n s HP; simpl.
  - destruct (n =? 0) eqn:Hn.
    + apply Z.eqb_eq in Hn. subst n. now apply Hexit.
    + apply Z.eqb_neq in Hn. now split.
  - destruct (n =? 0) eqn:Hn.
    + apply Z.eqb_eq in Hn. subst n. now apply Hexit.
    + apply Z.eqb_neq in Hn. specialize (Hturn n s Hn HP).
      destruct (iteration panicnil f onError p n s) as [[[n'|]|v] s'].
      * now apply IH.
      * exact Hturn.
      * exact Hturn.
Qed.

(** A run that has ended is not changed by more fuel. *)
Lemma loop_more_fuel f onError p fuel fuel' n s o s' :
  loop panicnil f onError p fuel n s = Finished o s' ->
  (fuel <= fuel')%nat ->
  loop panicnil f onError p fuel' n s = Finished o s'.
Proof.
  revert fuel' n s.
  induction fuel as [|fuel IH]; intros fuel' n s Hrun Hle.
  - simpl in Hrun. destruct fuel'; simpl; destruct (n =? 0); congruence.
  - destruct fuel' as [|fuel']; [lia|].
    simpl in *. destruct (n =? 0); [exact Hrun|].
    destruct (iteration panicnil f onError p n s) as [[[n'|]|v] s1];
      [apply IH; [exact Hrun | lia] | exact Hrun | exact Hrun].
Qed.


(** ** Runs of an operation that always fails *)

Lemma failing_turn f onError p n s :
  always_fails panicnil f -> never_panics onError ->
  exists x s',
    Try_result panicnil (fst (f (world s))) = Some x /\
    iteration panicnil f onError p n s
      = (Returned (Continue (next_counter n)), s') /\
    trace s' =
      trace s ++ [EvCall (fst (f (world s)))]
        ++ match onError with
           | Some _ => [EvOnError (Some x)]
           | None => []
           end
        ++ sleep_events p (next_counter n).
Proof.
  intros Hfail Hsafe.
  pose proof (iteration_cases f onError p n s) as Hit. cbv zeta in Hit.
  specialize (Hfail (world s)).
  destruct (Try_result panicnil (fst (f (world s)))) as [x|]; [|discriminate].
  exists x. destruct onError as [h|].
  - destruct (Hsafe h eq_refl (Some x) (snd (f (world s)))) as [w2 Hh].
    rewrite Hh in Hit. eexists. split; [reflexivity|]. split; [exact Hit|].
    cbn [trace]. now rewrite <- !app_assoc.
  - eexists. split; [reflexivity|]. split; [exact Hit|].
    cbn [trace]. now rewrite <- !app_assoc.
Qed.

Lemma failing_run f onError p :
  always_fails panicnil f -> never_panics onError ->
  forall (k : nat) s, Z.of_nat k <= int.max ->
  exists s' t,
    loop panicnil f onError p k (Z.of_nat k) s = Finished (Returned tt) s' /\
    trace s' = trace s ++ t /\
    length (calls t) = k /\
    reports t = match onError with
                | Some _ => attempts panicnil t
                | None => []
                end /\
    sleeps t = repeat p (pred k).
Proof.
  intros Hfail Hsafe k.
  induction k as [|k IH]; intros s Hmax.
  - exists s, []. cbn. rewrite app_nil_r. now destruct onError.
  - assert (Hn : next_counter (Z.of_nat (S k)) = Z.of_nat k)
      by (rewrite next_counter_positive; lia).
    destruct (failing_turn f onError p (Z.of_nat (S k)) s Hfail Hsafe)
      as (x & s1 & Hx & Hit & Ht1).
    rewrite Hn in Hit, Ht1.
    destruct (IH s1 ltac:(lia)) as (s' & t & Hrun & Ht & Hcalls & Hrep & Hsl).
    exists s'. eexists. split; [|split; [|split; [|split]]].
    + cbn [loop]. replace (Z.of_nat (S k) =? 0) with false
        by (symmetry; apply Z.eqb_neq; lia).
      rewrite Hit. exact Hrun.
    + rewrite Ht, Ht1, <- !app_assoc. reflexivity.
    + rewrite !calls_app, calls_sleep_events. cbn [calls].
      destruct onError; cbn; now rewrite Hcalls.
    + rewrite !reports_app, reports_sleep_events, Hrep.
      destruct onError; cbn; [|reflexivity].
      unfold attempts. rewrite !calls_app, calls_sleep_events. cbn.
      now rewrite Hx.
    + rewrite !sleeps_app, Hsl. unfold sleep_events.
      destruct k as [|k]; cbn; destruct onError; cbn; try reflexivity.
      all: replace (Z.pos (Pos.of_succ_nat k) =? 0) with false
             by (symmetry; apply Z.eqb_neq; lia).
      all: reflexivity.
Qed.


(** ** Runs with a counter that is not negative *)

Lemma bounded_run f onError p :
  forall (k : nat) s, Z.of_nat k <= int.max ->
  exists o s' t,
    loop panicnil f onError p k (Z.of_nat k) s = Finished o s' /\
    trace s' = trace s ++ t /\
    (length (calls t) <= k)%nat.
Proof.
  induction k as [|k IH]; intros s Hmax.
  - exists (Returned tt), s, []. cbn. rewrite app_nil_r. auto.
  - assert (Hn : next_counter (Z.of_nat (S k)) = Z.of_nat k)
      by (rewrite next_counter_positive; lia).
    cbn [loop]. replace (Z.of_nat (S k) =? 0) with false
      by (symmetry; apply Z.eqb_neq; lia).
    pose proof (iteration_cases f onError p (Z.of_nat (S k)) s) as Hit.
    cbv zeta in Hit. rewrite Hn in Hit. rewrite Hit. clear Hit.
    destruct (Try_result panicnil (fst (f (world s)))) as [x|].
    + destruct onError as [h|].
      * destruct (h (Some x) (snd (f (world s)))) as [[[]|v] w2].
        -- match goal with |- context [loop _ _ _ _ _ _ ?s1] =>
             destruct (IH s1 ltac:(lia)) as (o & s' & t & Hrun & Ht & Hlen) end.
           exists o, s'. eexists. split; [exact Hrun|]. split.
           ++ rewrite Ht. cbn [trace]. rewrite <- !app_assoc. reflexivity.
           ++ rewrite !calls_app, calls_sleep_events, !length_app. cbn. lia.
        -- do 2 eexists. exists [EvCall (fst (f (world s))); EvOnError (Some x)].
           split; [reflexivity|]. split.
           ++ cbn [trace]. now rewrite <- app_assoc.
           ++ cbn. lia.
      * match goal with |- context [loop _ _ _ _ _ _ ?s1] =>
          destruct (IH s1 ltac:(lia)) as (o & s' & t & Hrun & Ht & Hlen) end.
        exists o, s'. eexists. split; [exact Hrun|]. split.
        -- rewrite Ht. cbn [trace]. rewrite <- !app_assoc. reflexivity.
        -- rewrite !calls_app, calls_sleep_events, !length_app. cbn. lia.
    + do 2 eexists. exists [EvCall (fst (f (world s)))].
      split; [reflexivity|]. split; [reflexivity | cbn; lia].
Qed.
(** ** What holds of every run *)

(** Every sleep lasts [p], and none follows the last call of [f] once the
    loop has ended. *)
Lemma sleeps_invariant f onError p fuel n s :
  Forall (eq p) (sleeps (trace s)) ->
  (n = 0 -> sleeps_after_last_call (trace s) = []) ->
  match loop panicnil f onError p fuel n s with
  | Finished _ s' =>
      Forall (eq p) (sleeps (trace s')) /\
      sleeps_after_last_call (trace s') = []
  | OutOfFuel _ s' => Forall (eq p) (sleeps (trace s'))
  end.
Proof.
  intros Hall Hlast.
  pose proof (loop_invariant f onError p
    (fun n s => Forall (eq p) (sleeps (trace s)) /\
                (n = 0 -> sleeps_after_last_call (trace s) = []))
    (fun _ s => Forall (eq p) (sleeps (trace s)) /\
                sleeps_after_last_call (trace s) = [])) as Hinv.
  cbv beta in Hinv.
  assert (Hsl : forall m, Forall (eq p) (sleeps (@sleep_events V E p m))).
  { intros m. unfold sleep_events. destruct (m =? 0); cbn; auto. }
  assert (Hend : forall m t, sleeps_after_last_call t = [] -> m = 0 ->
            sleeps_after_last_call (t ++ @sleep_events V E p m) = []).
  { intros m t Ht Hm. subst m. cbn. now rewrite app_nil_r. }
  match type of Hinv with ?A -> ?B -> _ =>
    assert (Hexit : A); [|assert (Hturn : B)] end.
  - intros s0 [H1 H2]. auto.
  - clear - Hsl Hend. intros m s0 _ [H1 _].
    rewrite iteration_cases. cbv zeta.
    destruct (Try_result panicnil (fst (f (world s0)))) as [x|].
    + destruct onError as [h|].
      * destruct (h (Some x) (snd (f (world s0)))) as [[[]|v] w2]; cbn [trace].
        -- split.
           ++ rewrite !sleeps_app. cbn [sleeps]. rewrite !app_nil_r.
              apply Forall_app. split; [exact H1 | apply Hsl].
           ++ apply Hend.
              now rewrite after_last_call_snoc_onError,
                          after_last_call_snoc_call.
        -- split.
           ++ rewrite !sleeps_app. cbn [sleeps]. now rewrite !app_nil_r.
           ++ now rewrite after_last_call_snoc_onError,
                          after_last_call_snoc_call.
      * cbn [trace]. split.
        -- rewrite !sleeps_app. cbn [sleeps]. rewrite !app_nil_r.
           apply Forall_app. split; [exact H1 | apply Hsl].
        -- apply Hend. now rewrite after_last_call_snoc_call.
    + cbn [trace]. split.
      * rewrite sleeps_app. cbn [sleeps]. now rewrite app_nil_r.
      * now rewrite after_last_call_snoc_call.
  - specialize (Hinv Hexit Hturn fuel n s (conj Hall Hlast)).
    destruct (loop panicnil f onError p fuel n s); tauto.
Qed.

Lemma reports_invariant f onError p fuel n s :
  reported_all panicnil onError (trace s) ->
  match loop panicnil f onError p fuel n s with
  | Finished _ s' => reported_all panicnil onError (trace s')
  | OutOfFuel _ s' => reported_all panicnil onError (trace s')
  end.
Proof.
  intros Hrep.
  pose proof (loop_invariant f onError p
    (fun _ s => reported_all panicnil onError (trace s))
    (fun _ s => reported_all panicnil onError (trace s))) as Hinv.
  cbv beta in Hinv.
  match type of Hinv with ?A -> ?B -> _ =>
    assert (Hexit : A); [|assert (Hturn : B)] end.
  - auto.
  - clear. intros m s0 _ H. unfold reported_all in *.
    rewrite iteration_cases. cbv zeta.
    destruct (Try_result panicnil (fst (f (world s0)))) as [x|] eqn:Hx.
    + destruct onError as [h|].
      * destruct (h (Some x) (snd (f (world s0)))) as [[[]|v] w2]; cbn [trace].
        all: rewrite !reports_app, ?reports_sleep_events, !attempts_app, H.
        all: unfold attempts; rewrite ?calls_sleep_events; cbn.
        all: rewrite Hx, !filter_app; cbn; now rewrite ?app_nil_r.
      * cbn [trace]. rewrite !reports_app, reports_sleep_events, H.
        reflexivity.
    + cbn [trace]. rewrite reports_app, attempts_app, H.
      unfold attempts. cbn. rewrite Hx.
      destruct onError; [|reflexivity].
      rewrite filter_app. cbn. now rewrite !app_nil_r.
  - specialize (Hinv Hexit Hturn fuel n s Hrep).
    destruct (loop panicnil f onError p fuel n s); tauto.
Qed.



Lemma iteration_counter f onError p n s n' s' :
  iteration panicnil f onError p n s = (Returned (Continue n'), s') ->
  n' = next_counter n.
Proof.
  rewrite iteration_cases. cbv zeta.
  destruct (Try_result panicnil (fst (f (world s)))) as [x|]; [|discriminate].
  destruct onError as [h|]; [|congruence].
  destruct (h (Some x) (snd (f (world s)))) as [[[]|v] w2]; congruence.
Qed.

(** ** [Try] *)

(** C7. When [f] returns a failure value, [Try] returns that value; when
    [f] returns nil, [Try] returns nil; and [Try] does nothing to the outside
    but the one call of [f]: the world after [Try] is the world [f] left and
    the trace has grown by that call only. *)
Theorem Try_passes_return f s :
  (forall x w', f (world s) = (Returned (Some x), w') ->
     fst (Try panicnil f s) = Returned (Some x)) /\
  (forall w', f (world s) = (Returned None, w') ->
     fst (Try panicnil f s) = Returned None) /\
  world (snd (Try panicnil f s)) = snd (f (world s)) /\
  trace (snd (Try panicnil f s)) = trace s ++ [EvCall (fst (f (world s)))].
Proof.
  rewrite Try_call. cbn [fst snd world trace].
  repeat split.
  - intros x w' Hf. now rewrite Hf.
  - intros w' Hf. now rewrite Hf.
Qed.

(** C2, amended.  When [f] panics with a payload [d] that is not nil, [Try]
    returns a [*recovered] whose [CausedBy()] is [d] and whose [Error()] is
    the fixed message; and a turn of the loop of [Retry] on this [f] is, for
    all that follows the call, the turn on an operation that returns this
    [*recovered] normally: the same way on, the same world, the same reports
    to [onError] and the same sleeps; when [onError] returns, the loop goes
    on, [onError] having been told the [*recovered]. *)
Theorem Try_recovers_payload f s d w' :
  f (world s) = (Panicked (Some d), w') ->
  (exists r,
     Try panicnil f s =
       (Returned (Some (Recovered r)),
        {| world := w'; trace := trace s ++ [EvCall (Panicked (Some d))] |}) /\
     CausedBy r = Some d /\
     Error r = "RECOVERED, UNKNOWN ERROR; CALL CausedBy() interface{}"%string) /\
  (forall g onError p n,
     g (world s) = (Returned (Some (Recovered {| e := Some d |})), w') ->
     observe (iteration panicnil f onError p n s) =
     observe (iteration panicnil g onError p n s)) /\
  (forall onError p n, never_panics onError ->
     exists s',
       iteration panicnil f onError p n s =
         (Returned (Continue (next_counter n)), s') /\
       reports (trace s') =
         reports (trace s) ++
         match onError with
         | Some _ => [Some (Recovered {| e := Some d |})]
         | None => []
         end).
Proof.
  intros Hf. split; [|split].
  - exists {| e := Some d |}. rewrite Try_call, Hf. now cbn.
  - intros g onError p n Hg. rewrite !iteration_cases. cbv zeta.
    rewrite Hf, Hg. cbn [fst snd Try_result recover panic_value].
    destruct onError as [h|].
    + destruct (h (Some (Recovered {| e := Some d |})) w') as [[[]|v] w2];
        unfold observe; cbn [fst snd world trace].
      all: rewrite !reports_app, !sleeps_app; reflexivity.
    + unfold observe; cbn [fst snd world trace].
      rewrite !reports_app, !sleeps_app. reflexivity.
  - intros onError p n Hsafe. rewrite iteration_cases. cbv zeta.
    rewrite Hf. cbn [fst snd Try_result recover panic_value].
    destruct onError as [h|].
    + destruct (Hsafe h eq_refl (Some (Recovered {| e := Some d |})) w')
        as [w2 Hh].
      rewrite Hh. eexists. split; [reflexivity|]. cbn [trace].
      rewrite !reports_app, reports_sleep_events. cbn.
      now rewrite !app_nil_r.
    + eexists. split; [reflexivity|]. cbn [trace].
      rewrite !reports_app, reports_sleep_events. cbn.
      now rewrite !app_nil_r.
Qed.


(** ** [Retry] *)


(** C4, amended.  With any [numberOfRetries] other than zero, when the
    first call of [f] returns nil, [Retry] returns after that one call:
    [onError] is not called and there is no sleep. *)
Theorem Retry_first_success f n onError period fuel w w1 :
  n <> 0 -> f w = (Returned None, w1) -> (1 <= fuel)%nat ->
  Retry panicnil f n onError period fuel w =
    Finished (Returned tt)
             {| world := w1; trace := [EvCall (Returned None)] |}.
Proof.
  intros Hn Hf Hfuel. unfold Retry.
  destruct fuel as [|fuel]; [lia|]. cbn [loop].
  replace (n =? 0) with false by (symmetry; now apply Z.eqb_neq).
  rewrite iteration_cases. cbv zeta. cbn [world trace].
  now rewrite Hf.
Qed.

(** C5. With [numberOfRetries = 0], [Retry] returns at once: no call of
    [f], no call of [onError], no sleep, the world as it was. *)
Theorem Retry_zero f onError period fuel w :
  Retry panicnil f 0 onError period fuel w =
    Finished (Returned tt) {| world := w; trace := [] |}.
Proof. unfold Retry. now destruct fuel. Qed.

(** C6. The period in force is the first one supplied when it is positive
    and 5 seconds when none is supplied or the first is not positive; every
    sleep of every run of [Retry] lasts the period in force; once [Retry]
    has ended, in whatever way, there is no sleep after the last call of
    [f]; and with [numberOfRetries = N > 0], an operation of which every
    attempt fails and an [onError] that returns, there are exactly [N - 1]
    sleeps. *)
Theorem Retry_sleeps f n onError period fuel w :
  (forall p0 rest, period = p0 :: rest -> 0 < p0 -> Retry_period period = p0) /\
  (period = [] -> Retry_period period = 5 * time.Second) /\
  (forall p0 rest, period = p0 :: rest -> p0 <= 0 ->
     Retry_period period = 5 * time.Second) /\
  Forall (eq (Retry_period period))
         (sleeps (run_trace (Retry panicnil f n onError period fuel w))) /\
  (forall o s', Retry panicnil f n onError period fuel w = Finished o s' ->
     sleeps_after_last_call (trace s') = []) /\
  (0 < n -> n <= int.max ->
   always_fails panicnil f -> never_panics onError ->
   (Z.to_nat n <= fuel)%nat ->
   exists s',
     Retry panicnil f n onError period fuel w = Finished (Returned tt) s' /\
     Z.of_nat (length (sleeps (trace s'))) = n - 1).
Proof.
  split; [|split; [|split; [|split; [|split]]]].
  - intros p0 rest -> Hp. cbn.
    destruct (0 <? p0) eqn:H0; [reflexivity | apply Z.ltb_ge in H0; lia].
  - now intros ->.
  - intros p0 rest -> Hp. cbn.
    destruct (0 <? p0) eqn:H0; [apply Z.ltb_lt in H0; lia | reflexivity].
  - unfold Retry.
    pose proof (sleeps_invariant f onError (Retry_period period) fuel n
                  {| world := w; trace := [] |}
                  (Forall_nil _) (fun _ => eq_refl)) as H.
    destruct (loop _ _ _ _ _ _ _); cbn [run_trace]; tauto.
  - intros o s' Hrun. unfold Retry in Hrun.
    pose proof (sleeps_invariant f onError (Retry_period period) fuel n
                  {| world := w; trace := [] |}
                  (Forall_nil _) (fun _ => eq_refl)) as H.
    rewrite Hrun in H. tauto.
  - intros Hpos Hmax Hfail Hsafe Hfuel.
    destruct (failing_run f onError (Retry_period period) Hfail Hsafe
                (Z.to_nat n) {| world := w; trace := [] |} ltac:(lia))
      as (s' & t & Hrun & Ht & _ & _ & Hsl).
    rewrite Z2Nat.id in Hrun by lia. cbn [trace app] in Ht.
    exists s'. split.
    + unfold Retry. eapply loop_more_fuel; eassumption.
    + rewrite Ht, Hsl, repeat_length. lia.
Qed.



(** C10. With [numberOfRetries = N >= 0], whatever [f] and [onError] do,
    [Retry] ends within [N] turns of the loop, after at most [N] calls of
    [f]; a turn that goes on from a positive counter leaves a counter that
    is smaller and not negative. *)
Theorem Retry_bounded_terminates f N onError period w :
  0 <= N -> N <= int.max ->
  (exists o s',
     (forall fuel, (Z.to_nat N <= fuel)%nat ->
        Retry panicnil f N onError period fuel w = Finished o s') /\
     Z.of_nat (length (calls (trace s'))) <= N) /\
  (forall p n s n' s',
     0 < n -> n <= N ->
     iteration panicnil f onError p n s = (Returned (Continue n'), s') ->
     0 <= n' < n).
Proof.
  intros Hpos Hmax. split.
  - destruct (bounded_run f onError (Retry_period period) (Z.to_nat N)
                {| world := w; trace := [] |} ltac:(lia))
      as (o & s' & t & Hrun & Ht & Hlen).
    rewrite Z2Nat.id in Hrun by lia. cbn [trace app] in Ht.
    exists o, s'. split.
    + intros fuel Hfuel. unfold Retry. eapply loop_more_fuel; eassumption.
    + rewrite Ht. lia.
  - intros p n s n' s' Hn HnN Hit. apply iteration_counter in Hit.
    rewrite next_counter_positive in Hit by lia. lia.
Qed.

End Properties.

(** * The theorems at the closures of the tests *)

Lemma count_error_returns : never_panics (Some count_error).
Proof. intros h [= <-] err w. eexists. reflexivity. Defined.

Lemma no_handler_returns : never_panics (@None test_handler).
Proof. intros h [=]. Defined.

Lemma fails_DUMMY_always_fails (panicnil : bool) :
  always_fails panicnil fails_DUMMY.
Proof. intros w. reflexivity. Defined.


(** [TestNumberOfRetriesError], [TestNumberOfRetriesNoError], [TestOnError]
    and [TestOnError2]: the counter the tests assert on. *)
Example TestNumberOfRetriesError :
  returned_world (Retry true fails_DUMMY 3 None ms50 3 0) = Some 3.
Proof. reflexivity. Qed.

Example TestNumberOfRetriesNoError :
  returned_world (Retry true succeeds 3 None ms50 3 0) = Some 1.
Proof. reflexivity. Qed.

Example TestOnError :
  returned_world (Retry true panics_X 3 (Some count_error) ms50 3 0) = Some 6.
Proof. reflexivity. Qed.

Example TestOnError2 :
  returned_world
    (Retry true panics_X 3000 (Some count_error) [time.Microsecond] 3000 0)
  = Some 6000.
Proof. vm_compute. reflexivity. Qed.

(** [ExampleRetry_period]: two sleeps of 50ms between three attempts. *)
Example ExampleRetry_period :
  sleeps (run_trace (Retry true fails_DUMMY 3 (Some count_error) ms50 3 0))
  = [50000000; 50000000].
Proof. reflexivity. Qed.

Lemma Try_passes_return_witness :
  fst (Try true fails_DUMMY (initial 0))
    = Returned (Some (UserError "DUMMY"%string)) /\
  fst (Try true succeeds (initial 0)) = Returned None /\
  world (snd (Try true fails_DUMMY (initial 0))) = 1.
Proof.
  destruct (Try_passes_return true fails_DUMMY (initial 0))
    as (Hfail & _ & Hworld & _).
  destruct (Try_passes_return true succeeds (initial 0)) as (_ & Hok & _).
  split; [|split].
  - apply (Hfail (UserError "DUMMY"%string) 1). reflexivity.
  - apply (Hok 1). reflexivity.
  - exact Hworld.
Defined.

Lemma Try_recovers_payload_witness :
  (exists r,
     Try true panics_X (initial 0) =
       (Returned (Some (Recovered r)),
        {| world := 1;
           trace := [EvCall (Panicked (Some (Val "X"%string)))] |}) /\
     CausedBy r = Some (Val "X"%string) /\
     Error r = "RECOVERED, UNKNOWN ERROR; CALL CausedBy() interface{}"%string) /\
  observe (iteration true panics_X (Some count_error) 50 3 (initial 0)) =
  observe (iteration true
             (fun sum =>
                (Returned (Some (Recovered {| e := Some (Val "X"%string) |})),
                 sum + 1))
             (Some count_error) 50 3 (initial 0)) /\
  exists s',
    iteration true panics_X (Some count_error) 50 3 (initial 0) =
      (Returned (Continue (next_counter 3)), s') /\
    reports (trace s') =
      [Some (Recovered {| e := Some (Val "X"%string) |})].
Proof.
  destruct (Try_recovers_payload true panics_X (initial 0) (Val "X"%string) 1
              eq_refl) as (Hres & Hsame & Hon).
  split; [exact Hres | split].
  - apply Hsame. reflexivity.
  - apply (Hon (Some count_error) 50 3 count_error_returns).
Defined.

(** [panic(nil)]: under the runtime of every Go before 1.21 [Try] returns
    nil, and under either runtime it returns no [*recovered] whose
    [CausedBy()] is the nil that was passed to [panic]. *)
Lemma Try_recovers_payload_counterexample :
  panics_nil 0 = (Panicked None, 1) /\
  fst (Try true panics_nil (initial 0)) = Returned None /\
  fst (Try false panics_nil (initial 0))
    = Returned (Some (Recovered {| e := Some PanicNilError |})) /\
  forall panicnil : bool,
    ~ exists r,
        fst (Try panicnil panics_nil (initial 0))
          = Returned (Some (Recovered r)) /\
        CausedBy r = None.
Proof.
  split; [reflexivity|]. split; [reflexivity|]. split; [reflexivity|].
  intros [|] [r [Hr Hc]]; cbn in Hr.
  - discriminate Hr.
  - injection Hr as <-. discriminate Hc.
Qed.




Lemma Retry_first_success_witness :
  Retry true succeeds (-1) (Some count_error) ms50 1 0 =
    Finished (Returned tt)
             {| world := 1; trace := [EvCall (Returned None)] |}.
Proof.
  apply (Retry_first_success true succeeds (-1) (Some count_error) ms50 1%nat
           0 1).
  - lia.
  - reflexivity.
  - lia.
Defined.

(** [numberOfRetries = 0] and an operation that would succeed at its first
    call: it is not called. *)
Lemma Retry_first_success_counterexample :
  succeeds 0 = (Returned None, 1) /\
  Retry true succeeds 0 (Some count_error) ms50 5 0
    = Finished (Returned tt) {| world := 0; trace := [] |} /\
  length (calls (run_trace (Retry true succeeds 0 (Some count_error) ms50 5 0)))
    <> 1%nat.
Proof.
  split; [reflexivity|]. split; [reflexivity|]. cbn. discriminate.
Qed.

Lemma Retry_sleeps_witness :
  Retry_period ms50 = time.Millisecond * 50 /\
  Retry_period [] = 5 * time.Second /\
  Retry_period [0; 7] = 5 * time.Second /\
  Forall (eq (time.Millisecond * 50))
    (sleeps (run_trace (Retry true fails_DUMMY 3 (Some count_error) ms50 3 0))) /\
  (exists s',
     Retry true fails_DUMMY 3 (Some count_error) ms50 3 0
       = Finished (Returned tt) s' /\
     sleeps_after_last_call (trace s') = [] /\
     Z.of_nat (length (sleeps (trace s'))) = 3 - 1).
Proof.
  destruct (Retry_sleeps true fails_DUMMY 3 (Some count_error) ms50 3%nat 0)
    as (Hpos & _ & _ & Hall & Hlast & Hcount).
  destruct (Retry_sleeps true fails_DUMMY 3 (Some count_error) [] 3%nat 0)
    as (_ & Hnone & _).
  destruct (Retry_sleeps true fails_DUMMY 3 (Some count_error) [0; 7] 3%nat 0)
    as (_ & _ & Hzero & _).
  split; [|split; [|split; [|split]]].
  - apply (Hpos (time.Millisecond * 50) []); [reflexivity | now vm_compute].
  - apply Hnone. reflexivity.
  - apply (Hzero 0 [7]); [reflexivity | lia].
  - exact Hall.
  - destruct Hcount as (s' & Hrun & Hlen).
    + lia.
    + now vm_compute.
    + apply fails_DUMMY_always_fails.
    + apply count_error_returns.
    + simpl. lia.
    + exists s'. split; [exact Hrun | split; [|exact Hlen]].
      apply (Hlast (Returned tt) s' Hrun).
Defined.



Lemma Retry_bounded_terminates_witness :
  (exists o s',
     (forall fuel, (3 <= fuel)%nat ->
        Retry true fails_twice 3 (Some panicking_handler) ms50 fuel 0
          = Finished o s') /\
     Z.of_nat (length (calls (trace s'))) <= 3) /\
  (exists n' s',
     iteration true fails_DUMMY (Some count_error) 7 3 (initial 0)
       = (Returned (Continue n'), s') /\
     0 <= n' < 3).
Proof.
  destruct (Retry_bounded_terminates true fails_twice 3
              (Some panicking_handler) ms50 0) as [Hrun _];
    [lia | now vm_compute |].
  destruct (Retry_bounded_terminates true fails_DUMMY 3
              (Some count_error) ms50 0) as [_ Hless];
    [lia | now vm_compute |].
  split; [exact Hrun|].
  do 2 eexists. split; [reflexivity|].
  apply (Hless 7 3 (initial 0) _ _ ltac:(lia) ltac:(lia) eq_refl).
Defined.

(** * Further properties of [Try] and [Retry] *)

Section Further.

Context {W V E : Type}.
Variable panicnil : bool.

Implicit Types (f : Op W V E) (onError : option (Handler W V E)).
Implicit Types (s : State W V E) (t : list (event V E)).
Implicit Types (n : Z) (p : time.Duration) (fuel : nat).

Lemma sleeps_sleep_events p n :
  length (sleeps (@sleep_events V E p n)) = if n =? 0 then 0%nat else 1%nat.
Proof. unfold sleep_events. now destruct (n =? 0). Qed.

(** While the loop goes on there has been one sleep for each call of [f];
    the turn that ends it adds a call and no sleep. *)
Lemma sleep_count_invariant f onError p fuel n s :
  (if n =? 0
   then length (sleeps (trace s)) = pred (length (calls (trace s)))
   else length (sleeps (trace s)) = length (calls (trace s))) ->
  match loop panicnil f onError p fuel n s with
  | Finished _ s' =>
      length (sleeps (trace s')) = pred (length (calls (trace s')))
  | OutOfFuel _ s' =>
      length (sleeps (trace s')) = length (calls (trace s'))
  end.
Proof.
  intros Hstart.
  pose proof (loop_invariant panicnil f onError p
    (fun n s =>
       if n =? 0
       then length (sleeps (trace s)) = pred (length (calls (trace s)))
       else length (sleeps (trace s)) = length (calls (trace s)))
    (fun _ s =>
       length (sleeps (trace s)) = pred (length (calls (trace s))))) as Hinv.
  cbv beta in Hinv.
  match type of Hinv with ?A -> ?B -> _ =>
    assert (Hexit : A); [|assert (Hturn : B)] end.
  - intros s0 H. exact H.
  - clear. intros m s0 Hm H.
    apply Z.eqb_neq in Hm. rewrite Hm in H.
    rewrite iteration_cases. cbv zeta.
    destruct (Try_result panicnil (fst (f (world s0)))) as [x|].
    + destruct onError as [h|].
      * destruct (h (Some x) (snd (f (world s0)))) as [[[]|v] w2]; cbn [trace].
        -- rewrite !sleeps_app, !calls_app, calls_sleep_events, !length_app,
             sleeps_sleep_events.
           cbn. destruct (next_counter m =? 0); lia.
        -- rewrite !sleeps_app, !calls_app, !length_app. cbn. lia.
      * cbn [trace].
        rewrite !sleeps_app, !calls_app, calls_sleep_events, !length_app,
          sleeps_sleep_events.
        cbn. destruct (next_counter m =? 0); lia.
    + cbn [trace]. rewrite !sleeps_app, !calls_app, !length_app. cbn. lia.
  - specialize (Hinv Hexit Hturn fuel n s Hstart).
    destruct (loop panicnil f onError p fuel n s) as [o s'|n' s'];
      [exact Hinv|].
    destruct Hinv as [Hn' H]. apply Z.eqb_neq in Hn'. now rewrite Hn' in H.
Qed.

(** X1. In every run of [Retry] that has ended, by the counter, by a
    success or by a panic of [onError], there is exactly one sleep fewer
    than there are calls of [f] (none when [f] was not called); in a run
    that has not ended yet, each call of [f] so far was followed by a
    sleep. *)
Theorem Retry_one_sleep_between_calls f n onError period fuel w :
  match Retry panicnil f n onError period fuel w with
  | Finished _ s' =>
      length (sleeps (trace s')) = pred (length (calls (trace s')))
  | OutOfFuel _ s' =>
      length (sleeps (trace s')) = length (calls (trace s'))
  end.
Proof.
  unfold Retry. apply sleep_count_invariant. cbn. now destruct (n =? 0).
Qed.

Lemma Retry_period_positive (period : list time.Duration) :
  0 < Retry_period period.
Proof.
  unfold Retry_period. destruct period as [|p0 rest].
  - now vm_compute.
  - destruct (0 <? p0) eqn:Hp; [now apply Z.ltb_lt | now vm_compute].
Qed.

(** X2. [Retry] never sleeps for a duration that is zero or negative,
    whatever periods it is given, and it reads the first of them only: the
    run with [p0 :: rest] is the run with [p0] alone. *)
Theorem Retry_sleeps_positive f n onError period fuel w :
  Forall (fun d => 0 < d)
         (sleeps (run_trace (Retry panicnil f n onError period fuel w))) /\
  forall p0 rest,
    period = p0 :: rest ->
    Retry panicnil f n onError period fuel w =
    Retry panicnil f n onError [p0] fuel w.
Proof.
  split.
  - unfold Retry.
    pose proof (sleeps_invariant panicnil f onError (Retry_period period)
                  fuel n {| world := w; trace := [] |}
                  (Forall_nil _) (fun _ => eq_refl)) as H.
    pose proof (Retry_period_positive period) as Hp.
    assert (Hall : Forall (eq (Retry_period period))
                     (sleeps (run_trace
                        (loop panicnil f onError (Retry_period period) fuel n
                              {| world := w; trace := [] |})))).
    { destruct (loop _ _ _ _ _ _ _); cbn [run_trace]; tauto. }
    eapply Forall_impl; [|exact Hall]. intros d <-. exact Hp.
  - intros p0 rest ->. reflexivity.
Qed.

(** X3. Whatever [f] and [onError] do, [onError] panicking included,
    [onError] is never called with nil: its arguments are exactly the
    failures that [Try] reported, in order, so there are at most as many
    calls of [onError] as of [f]. *)
Theorem onError_never_told_nil f n onError period fuel w :
  let t := run_trace (Retry panicnil f n onError period fuel w) in
  reported_all panicnil onError t /\
  Forall (fun err => is_failure err = true) (reports t) /\
  (length (reports t) <= length (calls t))%nat.
Proof.
  cbv zeta. unfold Retry.
  pose proof (reports_invariant panicnil f onError (Retry_period period)
                fuel n {| world := w; trace := [] |}) as H.
  assert (H0 : reported_all panicnil onError
                 (trace {| world := w; trace := [] |}))
    by (unfold reported_all; cbn; now destruct onError).
  specialize (H H0).
  assert (Hrep : reported_all panicnil onError
            (run_trace (loop panicnil f onError (Retry_period period) fuel n
                             {| world := w; trace := [] |})))
    by (destruct (loop _ _ _ _ _ _ _); exact H).
  clear H H0. split; [exact Hrep|].
  unfold reported_all in Hrep. rewrite Hrep.
  destruct onError as [h|].
  - split.
    + apply Forall_forall. intros err Hin. now apply filter_In in Hin.
    + etransitivity; [apply filter_length_le|].
      unfold attempts. now rewrite length_map.
  - split; [constructor | cbn; lia].
Qed.




(** ** The first success ends the run *)

Lemma loop_until_success f onError p :
  forall (k : nat) n s wk o w',
    world_after_failures panicnil f onError k (world s) = Some wk ->
    f wk = (o, w') ->
    Try_result panicnil o = None ->
    n < 0 \/ Z.of_nat k < n <= int.max ->
    exists s' t,
      loop panicnil f onError p (S k) n s = Finished (Returned tt) s' /\
      world s' = w' /\
      trace s' = trace s ++ t /\
      length (calls t) = S k /\
      length (reports t) = match onError with Some _ => k | None => O end /\
      length (sleeps t) = k.
Proof.
  induction k as [|k IH]; intros n s wk o w' Hworld Hf Htry Hn.
  - cbn in Hworld. injection Hworld as <-.
    exists {| world := w'; trace := trace s ++ [EvCall o] |}, [EvCall o].
    cbn [loop]. replace (n =? 0) with false
      by (symmetry; apply Z.eqb_neq; lia).
    rewrite iteration_cases. cbv zeta. rewrite Hf. cbn [fst snd].
    rewrite Htry. cbn. now destruct onError.
  - cbn [world_after_failures] in Hworld.
    assert (Hnext : next_counter n <> 0 /\
                    (next_counter n < 0 \/
                     Z.of_nat k < next_counter n <= int.max)).
    { destruct Hn as [Hn|Hn].
      - rewrite next_counter_other by lia. lia.
      - rewrite next_counter_positive by lia. lia. }
    destruct Hnext as [Hnz Hnext].
    change (loop panicnil f onError p (S (S k)) n s) with
      (if n =? 0 then Finished (Returned tt) s
       else match iteration panicnil f onError p n s with
            | (Returned (Continue n'), s') =>
                loop panicnil f onError p (S k) n' s'
            | (Returned Break, s') => Finished (Returned tt) s'
            | (Panicked v, s') => Finished (Panicked v) s'
            end).
    replace (n =? 0) with false by (symmetry; apply Z.eqb_neq; lia).
    rewrite iteration_cases. cbv zeta.
    destruct (f (world s)) as [o1 w1]. cbn [fst snd].
    destruct (Try_result panicnil o1) as [x|]; [|discriminate].
    unfold sleep_events.
    replace (next_counter n =? 0) with false
      by (symmetry; now apply Z.eqb_neq).
    destruct onError as [h|].
    + destruct (h (Some x) w1) as [[[]|v] w2]; [|discriminate].
      match goal with |- context [loop _ _ _ _ _ _ ?s1] =>
        destruct (IH (next_counter n) s1 wk o w' Hworld Hf Htry Hnext)
          as (s' & t & Hrun & Hw & Ht & Hc & Hr & Hs) end.
      exists s'. eexists. split; [exact Hrun|]. split; [exact Hw|].
      split; [rewrite Ht; cbn [trace]; rewrite <- !app_assoc; reflexivity|].
      cbn. rewrite Hc, Hr, Hs. auto.
    + match goal with |- context [loop _ _ _ _ _ _ ?s1] =>
        destruct (IH (next_counter n) s1 wk o w' Hworld Hf Htry Hnext)
          as (s' & t & Hrun & Hw & Ht & Hc & Hr & Hs) end.
      exists s'. eexists. split; [exact Hrun|]. split; [exact Hw|].
      split; [rewrite Ht; cbn [trace]; rewrite <- !app_assoc; reflexivity|].
      cbn. rewrite Hc, Hr, Hs. auto.
Qed.

(** X6. When the first [k] attempts fail, [onError] returning from each,
    and attempt [k + 1] reports no failure, [Retry] returns right after that
    attempt, whether the counter is negative or allows more than [k]
    attempts: [f] has been called [k + 1] times, [onError] (when given) [k]
    times, there have been [k] sleeps, and the world is as the last call of
    [f] left it. *)
Theorem Retry_stops_at_first_success f n onError period fuel w k wk o w' :
  world_after_failures panicnil f onError k w = Some wk ->
  f wk = (o, w') ->
  Try_result panicnil o = None ->
  n < 0 \/ Z.of_nat k < n <= int.max ->
  (S k <= fuel)%nat ->
  exists s',
    Retry panicnil f n onError period fuel w = Finished (Returned tt) s' /\
    world s' = w' /\
    length (calls (trace s')) = S k /\
    length (reports (trace s'))
      = match onError with Some _ => k | None => O end /\
    length (sleeps (trace s')) = k.
Proof.
  intros Hworld Hf Htry Hn Hfuel.
  destruct (loop_until_success f onError (Retry_period period) k n
              {| world := w; trace := [] |} wk o w' Hworld Hf Htry Hn)
    as (s' & t & Hrun & Hw & Ht & Hc & Hr & Hs).
  cbn [trace app] in Ht.
  exists s'. split.
  - unfold Retry. eapply loop_more_fuel; eassumption.
  - rewrite Ht. auto.
Qed.

(** ** Runs that the caller cannot tell apart *)

(** Two loops whose turns agree, from states related by [R], on how they
    end and lead to related states again, agree on how their runs end and
    reach related states. *)
Lemma loop_simulation (R : State W V E -> State W V E -> Prop)
    f1 onError1 f2 onError2 p :
  (forall n s1 s2, R s1 s2 ->
     match iteration panicnil f1 onError1 p n s1,
           iteration panicnil f2 onError2 p n s2 with
     | (Returned (Continue a), s1'), (Returned (Continue b), s2') =>
         a = b /\ R s1' s2'
     | (Returned Break, s1'), (Returned Break, s2') => R s1' s2'
     | (Panicked v1, s1'), (Panicked v2, s2') => v1 = v2 /\ R s1' s2'
     | _, _ => False
     end) ->
  forall fuel n s1 s2, R s1 s2 ->
    run_end (loop panicnil f1 onError1 p fuel n s1)
      = run_end (loop panicnil f2 onError2 p fuel n s2) /\
    R (run_state (loop panicnil f1 onError1 p fuel n s1))
      (run_state (loop panicnil f2 onError2 p fuel n s2)).
Proof.
  intros Hturn fuel.
  induction fuel as [|fuel IH]; intros n s1 s2 HR; cbn [loop].
  - destruct (n =? 0); cbn; auto.
  - destruct (n =? 0); [cbn; auto|].
    specialize (Hturn n s1 s2 HR).
    destruct (iteration panicnil f1 onError1 p n s1) as [[[a|]|v1] s1'];
      destruct (iteration panicnil f2 onError2 p n s2) as [[[b|]|v2] s2'];
      try contradiction.
    + destruct Hturn as [<- HR']. now apply IH.
    + cbn. auto.
    + destruct Hturn as [<- HR']. cbn. auto.
Qed.

Lemma Try_result_guarded (o : outcome V (error V E)) :
  Try_result panicnil (Returned (Try_result panicnil o))
    = Try_result panicnil o.
Proof. reflexivity. Qed.

(** X7. Putting an operation behind [Try] before giving it to [Retry]
    changes nothing the caller can see: the run on
    [func() error { return Try(f) }] ends as the run on [f] does, in the
    same world, with the same results of the attempts, the same reports to
    [onError] and the same sleeps.  In particular a [*recovered] that comes
    back by a normal return is not wrapped a second time. *)
Theorem Retry_guarded f n onError period fuel w :
  run_end (Retry panicnil (guarded panicnil f) n onError period fuel w)
    = run_end (Retry panicnil f n onError period fuel w) /\
  same_effects panicnil
    (run_state (Retry panicnil (guarded panicnil f) n onError period fuel w))
    (run_state (Retry panicnil f n onError period fuel w)).
Proof.
  unfold Retry. generalize (Retry_period period). intros p.
  apply loop_simulation.
  - clear. intros m s1 s2 (Hw & Ha & Hr & Hs).
    rewrite !iteration_cases. cbv zeta. unfold guarded. rewrite Hw.
    destruct (f (world s2)) as [o w1]. cbn [fst snd].
    rewrite Try_result_guarded.
    assert (Hsl : attempts panicnil (@sleep_events V E p (next_counter m))
                  = [])
      by (unfold attempts; now rewrite calls_sleep_events).
    destruct (Try_result panicnil o) as [x|] eqn:Hx.
    + destruct onError as [h|].
      * destruct (h (Some x) w1) as [[[]|v] w2]; split; try reflexivity;
          unfold same_effects; cbn [world trace].
        -- rewrite !(attempts_app panicnil), Hsl, !reports_app, !sleeps_app,
             Hr, Hs, Ha.
           unfold attempts. cbn. rewrite Hx. auto.
        -- rewrite !(attempts_app panicnil), !reports_app, !sleeps_app,
             Hr, Hs, Ha.
           unfold attempts. cbn. rewrite Hx. auto.
      * split; [reflexivity|]. unfold same_effects; cbn [world trace].
        rewrite !(attempts_app panicnil), Hsl, !reports_app, !sleeps_app,
          Hr, Hs, Ha.
        unfold attempts. cbn. rewrite Hx. auto.
    + unfold same_effects; cbn [world trace].
      rewrite !(attempts_app panicnil), !reports_app, !sleeps_app,
        Hr, Hs, Ha.
      unfold attempts. cbn. rewrite Hx. auto.
  - unfold same_effects. cbn. auto.
Qed.

(** X8. A nil [onError] is a callback that does nothing: the run of
    [Retry] with no [onError] ends as the run with [func(error) {}] does,
    in the same world, after the same calls of [f] and the same sleeps,
    and with no report at all. *)
Theorem Retry_nil_onError f n period fuel w :
  run_end (Retry panicnil f n None period fuel w)
    = run_end (Retry panicnil f n (Some ignore_error) period fuel w) /\
  same_but_reports
    (run_state (Retry panicnil f n None period fuel w))
    (run_state (Retry panicnil f n (Some ignore_error) period fuel w)) /\
  reports (run_trace (Retry panicnil f n None period fuel w)) = [].
Proof.
  assert (H : run_end (Retry panicnil f n None period fuel w)
                = run_end (Retry panicnil f n (Some ignore_error) period fuel w)
              /\ same_but_reports
                   (run_state (Retry panicnil f n None period fuel w))
                   (run_state
                      (Retry panicnil f n (Some ignore_error) period fuel w))).
  { unfold Retry. apply loop_simulation.
    - clear. intros m s1 s2 (Hw & Hc & Hs).
      rewrite !iteration_cases. cbv zeta. unfold ignore_error. rewrite Hw.
      destruct (f (world s2)) as [o w1]. cbn [fst snd].
      destruct (Try_result panicnil o) as [x|].
      + split; [reflexivity|]. unfold same_but_reports; cbn [world trace].
        rewrite !calls_app, !sleeps_app, Hc, Hs. cbn.
        now rewrite !app_nil_r.
      + unfold same_but_reports; cbn [world trace].
        rewrite !calls_app, !sleeps_app, Hc, Hs. auto.
    - unfold same_but_reports. cbn. auto. }
  destruct H as [Hend Hsame]. split; [exact Hend | split; [exact Hsame|]].
  unfold Retry.
  pose proof (reports_invariant panicnil f None (Retry_period period)
                fuel n {| world := w; trace := [] |} eq_refl) as Hrep.
  destruct (loop _ _ _ _ _ _ _); exact Hrep.
Qed.

(** ** The first attempt *)

Lemma loop_trace_extends f onError p fuel n s :
  exists t,
    trace (run_state (loop panicnil f onError p fuel n s)) = trace s ++ t.
Proof.
  pose proof (loop_invariant panicnil f onError p
    (fun _ s' => exists t, trace s' = trace s ++ t)
    (fun _ s' => exists t, trace s' = trace s ++ t)) as Hinv.
  cbv beta in Hinv.
  match type of Hinv with ?A -> ?B -> _ =>
    assert (Hexit : A); [|assert (Hturn : B)] end.
  - auto.
  - clear. intros m s0 _ [t Ht].
    rewrite iteration_cases. cbv zeta.
    destruct (Try_result panicnil (fst (f (world s0)))) as [x|].
    + destruct onError as [h|].
      * destruct (h (Some x) (snd (f (world s0)))) as [[[]|v] w2];
          cbn [trace]; rewrite Ht, <- !app_assoc; eauto.
      * cbn [trace]. rewrite Ht, <- !app_assoc. eauto.
    + cbn [trace]. rewrite Ht, <- !app_assoc. eauto.
  - assert (Hstart : exists t, trace s = trace s ++ t)
      by (exists []; now rewrite app_nil_r).
    specialize (Hinv Hexit Hturn fuel n s Hstart).
    destruct (loop panicnil f onError p fuel n s); cbn [run_state]; tauto.
Qed.

(** X9. Unless [numberOfRetries] is zero, [Retry] makes its first attempt
    at once: the first thing it does is to call [f], in the world it was
    started in, with no sleep and no call of [onError] before. *)
Theorem Retry_starts_with_a_call f n onError period fuel w :
  n <> 0 -> (1 <= fuel)%nat ->
  exists t,
    run_trace (Retry panicnil f n onError period fuel w)
      = EvCall (fst (f w)) :: t.
Proof.
  intros Hn Hfuel. unfold Retry.
  destruct fuel as [|fuel]; [lia|]. cbn [loop].
  replace (n =? 0) with false by (symmetry; now apply Z.eqb_neq).
  assert (Htrace : forall r : run W V E, run_trace r = trace (run_state r))
    by (now intros []).
  rewrite iteration_cases. cbv zeta. cbn [world trace app].
  destruct (Try_result panicnil (fst (f w))) as [x|].
  - destruct onError as [h|].
    + destruct (h (Some x) (snd (f w))) as [[[]|v] w2].
      * match goal with |- context [loop _ _ ?oe _ ?k ?m ?s1] =>
          destruct (loop_trace_extends f oe (Retry_period period) k m s1)
            as [t Ht] end.
        rewrite Htrace, Ht. cbn [trace app]. eauto.
      * cbn. eauto.
    + match goal with |- context [loop _ _ ?oe _ ?k ?m ?s1] =>
        destruct (loop_trace_extends f oe (Retry_period period) k m s1)
          as [t Ht] end.
      rewrite Htrace, Ht. cbn [trace app]. eauto.
  - cbn. eauto.
Qed.

(** X10. A [*recovered] that [Try] makes of a panic never has a nil cause:
    when [f] panics and [Try] returns a [*recovered], its [CausedBy()] is
    not nil; it is the payload of the panic when that is not nil, and the
    runtime's [*runtime.PanicNilError] otherwise. *)
Theorem Try_cause_never_nil f s v w' r :
  f (world s) = (Panicked v, w') ->
  fst (Try panicnil f s) = Returned (Some (Recovered r)) ->
  CausedBy r <> None /\
  (v <> None -> CausedBy r = v) /\
  (v = None -> panicnil = false /\ CausedBy r = Some PanicNilError).
Proof.
  intros Hf. rewrite Try_call, Hf. cbn [fst].
  unfold Try_result, recover, panic_value.
  destruct v as [d|]; [|destruct panicnil].
  - intros [= <-]. cbn.
    repeat split; intros; repeat split; try discriminate; congruence.
  - discriminate.
  - intros [= <-]. cbn.
    repeat split; intros; repeat split; try discriminate; congruence.
Qed.

End Further.

(** * The further properties at the closures of the tests *)

(** [TestOnError3]: [onError] cancels, the next attempt returns nil, and
    the counter has been incremented once. *)
Example TestOnError3 :
  returned_world
    (Retry true panics_until_cancelled 3 (Some cancel_on_error) ms50 3
           (0, false))
  = Some (1, true).
Proof. reflexivity. Qed.

Lemma Retry_sleeps_positive_witness :
  Forall (fun d => 0 < d)
    (sleeps (run_trace (Retry true fails_DUMMY 3 None [0; 7] 3 0))) /\
  Retry true fails_DUMMY 3 None [0; 7] 3 0
    = Retry true fails_DUMMY 3 None [0] 3 0.
Proof.
  destruct (Retry_sleeps_positive true fails_DUMMY 3 None [0; 7] 3%nat 0)
    as [Hpos Hfirst].
  split; [exact Hpos|]. apply (Hfirst 0 [7]). reflexivity.
Defined.



Lemma Retry_stops_at_first_success_witness :
  exists s',
    Retry true panics_until_cancelled (-1) (Some cancel_on_error) ms50 2
          (0, false)
      = Finished (Returned tt) s' /\
    world s' = (1, true) /\
    length (calls (trace s')) = 2%nat /\
    length (reports (trace s')) = 1%nat /\
    length (sleeps (trace s')) = 1%nat.
Proof.
  apply (Retry_stops_at_first_success true panics_until_cancelled (-1)
           (Some cancel_on_error) ms50 2%nat (0, false) 1%nat
           (1, true) (Returned None) (1, true)).
  - reflexivity.
  - reflexivity.
  - reflexivity.
  - left. lia.
  - lia.
Defined.

Lemma Retry_starts_with_a_call_witness :
  exists t,
    run_trace (Retry true panics_X (-1) (Some count_error) ms50 2 0)
      = EvCall (fst (panics_X 0)) :: t.
Proof.
  apply (Retry_starts_with_a_call true panics_X (-1) (Some count_error) ms50
           2%nat 0); [lia | lia].
Defined.

Lemma Try_cause_never_nil_witness :
  (CausedBy {| e := Some (Val "X"%string) |} <> None /\
   CausedBy {| e := Some (Val "X"%string) |} = Some (Val "X"%string)) /\
  (false = false /\
   CausedBy {| e := Some (@PanicNilError string) |} = Some PanicNilError).
Proof.
  destruct (Try_cause_never_nil true panics_X (initial 0)
              (Some (Val "X"%string)) 1 {| e := Some (Val "X"%string) |}
              eq_refl eq_refl) as (Hcause & Hsame & _).
  destruct (Try_cause_never_nil false panics_nil (initial 0) None 1
              {| e := Some PanicNilError |} eq_refl eq_refl)
    as (_ & _ & Hnil).
  split; [split; [exact Hcause | apply Hsame; discriminate]|].
  apply Hnil. reflexivity.
Defined.
